(** * python-xbee: API frame checksum, ZigBee field tables, dispatch

    A shallow embedding of [xbee/frame.py] (class [APIFrame]) and of the
    command and response tables of [xbee/zigbee.py] (class [ZigBee]),
    together with models of the frame envelope and of the dispatch router
    whose code is not part of the sources at hand.

    Python 2 [str] values are byte strings: they are embedded as [string],
    whose characters are the 8-bit [ascii].  Python integers are unbounded
    and are embedded as [Z]. *)

From Stdlib Require Import ZArith Lia String Ascii List Bool.
From stdpp Require Import base strings gmap list fin_maps.
Import ListNotations.

Local Open Scope Z_scope.
Local Open Scope string_scope.

(** ** Python values and exceptions *)

Module Py.

(** The built-in exceptions that [ord] and [chr] can raise. *)
Inductive exn : Type :=
| TypeError
| ValueError.

Inductive result (A : Type) : Type :=
| Ok (a : A)
| Raise (e : exn).
Arguments Ok {A} a.
Arguments Raise {A} e.

(** [ord(c)]: the code of a string of length one; any other string is a
    [TypeError]. *)
Definition ord (c : string) : result Z :=
  match c with
  | String a EmptyString => Ok (Z.of_N (N_of_ascii a))
  | _ => Raise TypeError
  end.

(** [chr(i)]: the one-character string of code [i]; outside
    [range(256)] it is a [ValueError]. *)
Definition chr (i : Z) : result string :=
  if (0 <=? i)%Z && (i <? 256)%Z
  then Ok (String (ascii_of_N (Z.to_N i)) EmptyString)
  else Raise ValueError.

(** Iterating over a [str] yields its characters as strings of length
    one. *)
Fixpoint iter (s : string) : list string :=
  match s with
  | EmptyString => []
  | String a rest => String a EmptyString :: iter rest
  end.

(** A byte string from the codes of its bytes, for writing literals such
    as ['\x08'] and ['\xFF\xFE']. *)
Fixpoint bytes (codes : list N) : string :=
  match codes with
  | [] => EmptyString
  | c :: rest => String (ascii_of_N c) (bytes rest)
  end.

End Py.
Import Py.

(** ** [xbee/frame.py]: class [APIFrame] *)

(** An [APIFrame] object: its only attribute is [data]. *)
Record APIFrame : Type := mkAPIFrame { data : string }.

(** Methods run against the object [self] and may raise: a computation
    takes the object, and returns a result or an exception together with
    the object as the method left it. *)
Definition Method (A : Type) : Type := APIFrame -> result A * APIFrame.

Definition ret {A} (a : A) : Method A := fun self => (Ok a, self).

Definition bind {A B} (m : Method A) (k : A -> Method B) : Method B :=
  fun self =>
    match m self with
    | (Ok a, self') => k a self'
    | (Raise e, self') => (Raise e, self')
    end.

(** A call of a built-in that touches no object. *)
Definition call {A} (r : result A) : Method A := fun self => (r, self).

(** Reading the attribute [self.data]. *)
Definition self_data : Method string := fun self => (Ok (data self), self).

Declare Scope method_scope.
Delimit Scope method_scope with method.
Notation "x <- m ;; k" := (bind m (fun x => k))
  (at level 100, m at next level, right associativity) : method_scope.
Local Open Scope method_scope.

(** [for x in xs: acc = body(x, acc)]. *)
Fixpoint for_each {A X} (xs : list X) (body : X -> A -> Method A) (acc : A)
  : Method A :=
  match xs with
  | [] => ret acc
  | x :: rest => acc' <- body x acc ;; for_each rest body acc'
  end.

(** The loop shared by both methods:
<<
    for byte in self.data:
        total += ord(byte)
>> *)
Definition add_all_bytes (total : Z) : Method Z :=
  d <- self_data ;;
  for_each (iter d) (fun byte total => o <- call (ord byte) ;; ret (total + o)) total.

(** [APIFrame.checksum(self)]. *)
Definition checksum : Method string :=
  let total := 0 in
  total <- add_all_bytes total ;;
  let total := Z.land total 0xFF in
  call (chr (0xFF - total)).

(** [APIFrame.verify(self, chksum)]. *)
Definition verify (chksum : string) : Method bool :=
  let total := 0 in
  total <- add_all_bytes total ;;
  o <- call (ord chksum) ;;
  let total := total + o in
  let total := Z.land total 0xFF in
  ret (total =? 0xFF)%Z.

(** The sum of the codes of the bytes of a string, as the specification
    speaks of it ([sum(P)]). *)
Fixpoint byte_sum (s : string) : Z :=
  match s with
  | EmptyString => 0
  | String a rest => Z.of_N (N_of_ascii a) + byte_sum rest
  end.

(** The code of a byte. *)
Definition code (a : ascii) : Z := Z.of_N (N_of_ascii a).

(** The one-character string holding the byte [a]. *)
Definition char (a : ascii) : string := String a EmptyString.

(** ** [xbee/zigbee.py]: the tables of class [ZigBee] *)

Module ZigBee.

(** One field of a command: the dict
    [{'name': ..., 'len': ..., 'default': ...}].  [len] is a byte count,
    or [None] for a field that takes whatever is left; [default] is a
    byte string or [None]. *)
Record CommandField : Type := mkCommandField {
  name : string;
  len : option Z;
  default : option string
}.

(** One field of a response: the dict [{'name': ..., 'len': ...}]. *)
Record ResponseField : Type := mkResponseField {
  rname : string;
  rlen : option Z
}.

(** One response: its name, its structure, and the optional key
    ['parse_as_io_samples']. *)
Record Response : Type := mkResponse {
  response_name : string;
  structure : list ResponseField;
  parse_as_io_samples : option string
}.

(** [struct.pack('>Q', n)]: eight bytes, most significant first. *)
Definition pack_Q (n : N) : string :=
  bytes (List.map (fun i => N.land (N.shiftr n (8 * i)) 0xFF)
                  [7; 6; 5; 4; 3; 2; 1; 0]%N).

Definition cf (n : string) (l : option Z) (d : option string) : CommandField :=
  mkCommandField n l d.

Definition rf (n : string) (l : option Z) : ResponseField :=
  mkResponseField n l.

Definition api_commands_items : list (string * list CommandField) :=
  [ ("at",
      [ cf "id"        (Some 1) (Some (bytes [0x08]%N));
        cf "frame_id"  (Some 1) (Some (bytes [0x01]%N));
        cf "command"   (Some 2) None;
        cf "parameter" None     None ]);
    ("queued_at",
      [ cf "id"        (Some 1) (Some (bytes [0x09]%N));
        cf "frame_id"  (Some 1) (Some (bytes [0x01]%N));
        cf "command"   (Some 2) None;
        cf "parameter" None     None ]);
    ("remote_at",
      [ cf "id"             (Some 1) (Some (bytes [0x17]%N));
        cf "frame_id"       (Some 1) (Some (bytes [0x00]%N));
        cf "dest_addr_long" (Some 8) (Some (pack_Q 0));
        cf "dest_addr"      (Some 2) (Some (bytes [0xFF; 0xFE]%N));
        cf "options"        (Some 1) (Some (bytes [0x02]%N));
        cf "command"        (Some 2) None;
        cf "parameter"      None     None ]);
    ("tx",
      [ cf "id"               (Some 1) (Some (bytes [0x10]%N));
        cf "frame_id"         (Some 1) (Some (bytes [0x01]%N));
        cf "dest_addr_long"   (Some 8) None;
        cf "dest_addr"        (Some 2) None;
        cf "broadcast_radius" (Some 1) (Some (bytes [0x00]%N));
        cf "options"          (Some 1) (Some (bytes [0x00]%N));
        cf "data"             None     None ]);
    ("tx_explicit",
      [ cf "id"               (Some 1) (Some (bytes [0x11]%N));
        cf "frame_id"         (Some 1) (Some (bytes [0x00]%N));
        cf "dest_addr_long"   (Some 8) None;
        cf "dest_addr"        (Some 2) None;
        cf "src_endpoint"     (Some 1) None;
        cf "dest_endpoint"    (Some 1) None;
        cf "cluster"          (Some 1) None;
        cf "profile"          (Some 1) None;
        cf "broadcast_radius" (Some 1) (Some (bytes [0x00]%N));
        cf "options"          (Some 1) (Some (bytes [0x00]%N));
        cf "data"             None     None ]) ].

(** The dict [ZigBee.api_commands], keyed by the name of the command. *)
Definition api_commands : gmap string (list CommandField) :=
  list_to_map api_commands_items.

Definition api_responses_items : list (string * Response) :=
  [ (bytes [0x90]%N,
      mkResponse "rx"
        [ rf "source_addr_long" (Some 8);
          rf "source_addr"      (Some 2);
          rf "options"          (Some 1);
          rf "rf_data"          None ]
        None);
    (bytes [0x91]%N,
      mkResponse "rx_explicit"
        [ rf "source_addr_long" (Some 8);
          rf "source_addr"      (Some 2);
          rf "source_endpoint"  (Some 1);
          rf "dest_endpoint"    (Some 1);
          rf "cluster"          (Some 2);
          rf "profile"          (Some 2);
          rf "options"          (Some 1);
          rf "rf_data"          None ]
        None);
    (bytes [0x92]%N,
      mkResponse "rx_io_data_long_addr"
        [ rf "source_addr_long" (Some 8);
          rf "source_addr"      (Some 2);
          rf "options"          (Some 1);
          rf "samples"          None ]
        (Some "samples"));
    (bytes [0x8b]%N,
      mkResponse "tx_status"
        [ rf "frame_id"        (Some 1);
          rf "dest_addr"       (Some 2);
          rf "retries"         (Some 1);
          rf "deliver_status"  (Some 1);
          rf "discover_status" (Some 1) ]
        None);
    (bytes [0x8a]%N,
      mkResponse "status"
        [ rf "status" (Some 1) ]
        None);
    (bytes [0x88]%N,
      mkResponse "at_response"
        [ rf "frame_id"  (Some 1);
          rf "command"   (Some 2);
          rf "status"    (Some 1);
          rf "parameter" None ]
        None);
    (bytes [0x97]%N,
      mkResponse "remote_at_response"
        [ rf "frame_id"         (Some 1);
          rf "source_addr_long" (Some 8);
          rf "source_addr"      (Some 2);
          rf "command"          (Some 2);
          rf "status"           (Some 1);
          rf "parameter"        None ]
        None);
    (bytes [0x95]%N,
      mkResponse "node_id_indicator"
        [ rf "sender_addr_long"   (Some 8);
          rf "sender_addr"        (Some 2);
          rf "options"            (Some 1);
          rf "source_addr"        (Some 2);
          rf "source_addr_long"   (Some 8);
          rf "node_id"            (Some 0);
          rf "parent_source_addr" (Some 2);
          rf "device_type"        (Some 1);
          rf "source_event"       (Some 1);
          rf "digi_profile_id"    (Some 2);
          rf "manufacturer_id"    (Some 2) ]
        None) ].

(** The dict [ZigBee.api_responses], keyed by the id byte received. *)
Definition api_responses : gmap string Response :=
  list_to_map api_responses_items.

(** The fixed message-id field: named ['id'], one byte long, with a
    default of one byte. *)
Definition is_id_field (f : CommandField) : Prop :=
  name f = "id" /\ len f = Some 1 /\
  exists b, default f = Some (String b EmptyString).

(** In a sequence of field lengths, [None] stands only at the last
    position, and so at most once. *)
Definition rest_only_last (lens : list (option Z)) : Prop :=
  (forall i : nat, lens !! i = Some None -> S i = length lens) /\
  (forall i j : nat, lens !! i = Some None -> lens !! j = Some None -> i = j).

End ZigBee.

(** ** The frame envelope (FrameCodec) *)

Module FrameCodec.

(** Modelled from the spec: the fixed bytes of the wire format.  The
    envelope code ([xbee/base.py]) is not among the sources and the
    specification names these bytes without giving their values, so
    they are parameters of the codec: the start delimiter, the escape
    marker, the two flow-control bytes, and the constant an escaped
    byte is XORed with. *)
Record Wire : Type := mkWire {
  delimiter : ascii;
  escape_marker : ascii;
  xon : ascii;
  xoff : ascii;
  escape_xor : ascii
}.

(** The bytes XBee modules use in API mode with escaping
    ([7E], [7D], [11], [13], XOR with [20]); an instance of the
    parameters, for running the codec on concrete frames. *)
Definition xbee_wire : Wire :=
  mkWire (ascii_of_N 0x7E) (ascii_of_N 0x7D) (ascii_of_N 0x11)
         (ascii_of_N 0x13) (ascii_of_N 0x20).

(** What unwrapping a stream gives. *)
Inductive outcome : Type :=
| Payload (p : string)
| NeedMoreData
| ChecksumError.

(** Bitwise exclusive or of two bytes. *)
Definition xor_byte (a b : ascii) : ascii :=
  match a, b with
  | Ascii a0 a1 a2 a3 a4 a5 a6 a7, Ascii b0 b1 b2 b3 b4 b5 b6 b7 =>
      Ascii (xorb a0 b0) (xorb a1 b1) (xorb a2 b2) (xorb a3 b3)
            (xorb a4 b4) (xorb a5 b5) (xorb a6 b6) (xorb a7 b7)
  end.

Section Codec.

Context (W : Wire).

(** Modelled from the spec: the reserved control bytes (section 4.2:
    delimiter, escape marker, and two flow-control bytes). *)
Definition reserved (b : ascii) : bool :=
  Ascii.eqb b (delimiter W) || Ascii.eqb b (escape_marker W)
  || Ascii.eqb b (xon W) || Ascii.eqb b (xoff W).

(** Modelled from the spec: escaping of the region after the
    delimiter; a reserved byte becomes the escape marker followed by
    the byte XORed with the fixed constant. *)
Fixpoint escape (region : string) : string :=
  match region with
  | EmptyString => EmptyString
  | String b rest =>
      if reserved b
      then String (escape_marker W)
                  (String (xor_byte b (escape_xor W)) (escape rest))
      else String b (escape rest)
  end.

(** Modelled from the spec: the 2-byte big-endian length field.  Only
    the two low bytes of the count fit in it. *)
Definition length_field (n : Z) : string :=
  bytes [Z.to_N (Z.land (Z.shiftr n 8) 0xFF); Z.to_N (Z.land n 0xFF)].

(** Modelled from the spec: the region that follows the delimiter,
    before escaping: length, payload, checksum byte. *)
Definition region (payload checksum_byte : string) : string :=
  length_field (Z.of_nat (String.length payload))
  ++ payload ++ checksum_byte.

(** Modelled from the spec: the region as it goes on the wire;
    escaping is applied only when escaping mode is enabled
    (section 3). *)
Definition on_wire (escaping : bool) (r : string) : string :=
  if escaping then escape r else r.

(** Modelled from the spec: [FrameCodec.wrap] ([xbee/base.py] is not
    among the sources).  Section 4.2: emits delimiter, 2-byte
    big-endian length of payload, payload bytes, checksum byte (via
    ChecksumCodec.compute, which is [APIFrame.checksum]); in escaping
    mode every reserved byte after the delimiter is escaped. *)
Definition wrap (escaping : bool) (payload : string) : result string :=
  match fst (checksum (mkAPIFrame payload)) with
  | Ok c =>
      Ok (String (delimiter W) (on_wire escaping (region payload c)))
  | Raise e => Raise e
  end.

(** Modelled from the spec: reading one logical byte off the stream,
    un-escaping on the fly; [None] when the stream ends first. *)
Definition read_byte (escaping : bool) (stream : string)
  : option (ascii * string) :=
  match stream with
  | EmptyString => None
  | String b rest =>
      if escaping && Ascii.eqb b (escape_marker W)
      then match rest with
           | EmptyString => None
           | String b' rest' => Some (xor_byte b' (escape_xor W), rest')
           end
      else Some (b, rest)
  end.

(** Modelled from the spec: reading [n] logical bytes. *)
Fixpoint read_bytes (escaping : bool) (n : nat) (stream : string)
  : option (string * string) :=
  match n with
  | O => Some (EmptyString, stream)
  | S n' =>
      match read_byte escaping stream with
      | None => None
      | Some (b, stream') =>
          match read_bytes escaping n' stream' with
          | None => None
          | Some (p, stream'') => Some (String b p, stream'')
          end
      end
  end.

(** Modelled from the spec: consuming the stream up to and including
    one delimiter. *)
Fixpoint after_delimiter (stream : string) : option string :=
  match stream with
  | EmptyString => None
  | String b rest =>
      if Ascii.eqb b (delimiter W) then Some rest else after_delimiter rest
  end.

(** Modelled from the spec: [FrameCodec.unwrap] ([xbee/base.py] is
    not among the sources).  Section 4.2: consumes one delimiter,
    reads the length field, that many logical bytes, and one checksum
    byte, and verifies it (with [APIFrame.verify]); a stream that
    ends early gives [NeedMoreData], a failed verification
    [ChecksumError]. *)
Definition unwrap (escaping : bool) (stream : string) : result outcome :=
  match after_delimiter stream with
  | None => Ok NeedMoreData
  | Some s1 =>
      match read_byte escaping s1 with
      | None => Ok NeedMoreData
      | Some (hi, s2) =>
          match read_byte escaping s2 with
          | None => Ok NeedMoreData
          | Some (lo, s3) =>
              let n := code hi * 256 + code lo in
              match read_bytes escaping (Z.to_nat n) s3 with
              | None => Ok NeedMoreData
              | Some (payload, s4) =>
                  match read_byte escaping s4 with
                  | None => Ok NeedMoreData
                  | Some (c, _) =>
                      match fst (verify (char c) (mkAPIFrame payload)) with
                      | Ok true => Ok (Payload payload)
                      | Ok false => Ok ChecksumError
                      | Raise e => Raise e
                      end
                  end
              end
          end
      end
  end.

(** Wrapping and then unwrapping: an exception of [wrap] goes
    through. *)
Definition unwrap_wrap (escaping : bool) (payload : string)
  : result outcome :=
  match wrap escaping payload with
  | Ok frame => unwrap escaping frame
  | Raise e => Raise e
  end.

End Codec.

(** A payload of [n] zero bytes. *)
Definition zeros (n : N) : string :=
  N.iter n (String zero) EmptyString.

End FrameCodec.

(** ** The dispatch router (DispatchRouter) *)

Module Dispatch.

Section Router.

Context {Message World : Type}.

(** Modelled from the spec: a registration (section 3): a name, a
    callback and a predicate.  The module [xbee/helpers/dispatch] is
    not among the sources, only its tests are.  A callback is named
    by a handle; what it does when called is given by a [behaviour]
    below. *)
Record Registration : Type := mkRegistration {
  name : string;
  callback : nat;
  predicate : Message -> bool
}.

(** Modelled from the spec: the changes a running callback can ask
    of the registry (section 4.5, section 6: [register],
    [unregister]). *)
Inductive request : Type :=
| Register (r : Registration)
| Unregister (n : string).

(** Modelled from the spec: what calling a callback with
    [(name, message)] does: it changes the consumers' world and may
    register or unregister. *)
Definition behaviour : Type :=
  nat -> string -> Message -> World -> World * list request.

(** One call made by the router: the callback, and the name and the
    message it was given. *)
Definition invocation : Type := (nat * string * Message)%type.

(** Modelled from the spec: [unregister(name)]. *)
Definition unregister (n : string) (regs : list Registration)
  : list Registration :=
  List.filter (fun r => negb (String.eqb (name r) n)) regs.

(** Modelled from the spec: [register(name, callback, predicate)]
    (section 4.5): a registration of the same name is replaced as a
    whole, and the name appears once. *)
Definition register (r : Registration) (regs : list Registration)
  : list Registration :=
  (unregister (name r) regs ++ [r])%list.

(** The registry after a sequence of calls of [register] on a new
    router. *)
Definition registered (rs : list Registration) : list Registration :=
  fold_left (fun regs r => register r regs) rs [].

Definition serve (regs : list Registration) (q : request)
  : list Registration :=
  match q with
  | Register r => register r regs
  | Unregister n => unregister n regs
  end.

(** The router: its registry and the world its callbacks act on. *)
Record Router : Type := mkRouter {
  registry : list Registration;
  world : World
}.

(** Calling the callback of [r] on [m]. *)
Definition invoke (B : behaviour) (r : Registration) (m : Message)
           (st : Router) : Router :=
  let '(w, requests) := B (callback r) (name r) m (world st) in
  mkRouter (fold_left serve requests (registry st)) w.

(** Modelled from the spec: one pass over a snapshot of the registry
    (section 4.5): for each registration, in order, evaluate
    predicate(message); if true, invoke callback(name, message).
    The calls made are recorded alongside. *)
Fixpoint dispatch_snapshot (B : behaviour) (snapshot : list Registration)
         (m : Message) (st : Router) : Router * list invocation :=
  match snapshot with
  | [] => (st, [])
  | r :: rest =>
      if predicate r m
      then
        let '(st', calls) := dispatch_snapshot B rest m (invoke B r m st) in
        (st', (callback r, name r, m) :: calls)
      else dispatch_snapshot B rest m st
  end.

(** Modelled from the spec: a dispatch round; the registrations are
    snapshotted at its start. *)
Definition dispatch_round (B : behaviour) (m : Message) (st : Router)
  : Router * list invocation :=
  dispatch_snapshot B (registry st) m st.

(** The calls made in one dispatch round. *)
Definition calls_of_round (B : behaviour) (m : Message) (st : Router)
  : list invocation :=
  snd (dispatch_round B m st).

(** Modelled from the spec: [run(oneshot)] over the decoded messages
    the frame source still has; an empty source is end-of-stream. *)
Fixpoint run (B : behaviour) (oneshot : bool) (source : list Message)
         (st : Router) : Router * list invocation :=
  match source with
  | [] => (st, [])
  | m :: rest =>
      let '(st', calls) := dispatch_round B m st in
      if oneshot then (st', calls)
      else
        let '(st'', calls') := run B false rest st' in
        (st'', (calls ++ calls')%list)
  end.

(** The call a registration receives on message [m]. *)
Definition call_of (m : Message) (r : Registration) : invocation :=
  (callback r, name r, m).

(** The registry invariant: names are unique. *)
Definition unique_names (regs : list Registration) : Prop :=
  NoDup (List.map name regs).

End Router.

Arguments Registration : clear implicits.
Arguments Router : clear implicits.
Arguments behaviour : clear implicits.
Arguments invocation : clear implicits.
Arguments request : clear implicits.

(** A behaviour under observation: whatever [B] does, a callback that
    runs notes in the world the arguments it was called with, after
    what was noted before. *)
Definition observed {Message World : Type} (B : behaviour Message World)
  : behaviour Message (list (invocation Message) * World) :=
  fun cb n m sw =>
    let '(w', requests) := B cb n m (snd sw) in
    ((fst sw ++ [(cb, n, m)])%list, w', requests).

(** What the callbacks noted during one dispatch round that started
    with nothing noted. *)
Definition seen_in_round {Message World : Type} (B : behaviour Message World)
           (m : Message) (regs : list (Registration Message)) (w : World)
  : list (invocation Message) :=
  fst (world (fst (dispatch_round (observed B) m (mkRouter regs ([], w))))).

End Dispatch.

(** ** [xbee/helpers/dispatch/tests/test_dispatch.py]: class [CallbackCheck] *)

Module TestDispatch.

(** A [CallbackCheck] object: its only attribute is [called]. *)
Record CallbackCheck : Type := mkCallbackCheck { called : bool }.

(** [CallbackCheck.__init__(self)]: [self.called = False]. *)
Definition init : CallbackCheck := mkCallbackCheck false.

(** [CallbackCheck.call(self, name, data)]: [self.called = True]. *)
Definition call {Message : Type} (name : string) (data : Message)
           (self : CallbackCheck) : CallbackCheck :=
  mkCallbackCheck true.

(** The [CallbackCheck] objects of a test, by identity.  The callback
    registered for object [i] is its bound method [check.call]: calling
    it runs [call] on that object and asks nothing of the registry. *)
Definition bound_call {Message : Type}
  : Dispatch.behaviour Message (gmap nat CallbackCheck) :=
  fun cb n m objects => (alter (call n m) cb objects, []).

End TestDispatch.

(** * Properties *)

(** ** Running the methods on concrete frames *)

Example checksum_example :
  checksum (mkAPIFrame (bytes [0x08; 0x01; 0x4D; 0x59]%N))
  = (Ok (bytes [0x50]%N), mkAPIFrame (bytes [0x08; 0x01; 0x4D; 0x59]%N)).
Proof. reflexivity. Qed.

Example verify_example :
  fst (verify (bytes [0x50]%N) (mkAPIFrame (bytes [0x08; 0x01; 0x4D; 0x59]%N)))
  = Ok true.
Proof. reflexivity. Qed.

Example verify_two_bytes_raises :
  fst (verify (bytes [0x50; 0x50]%N) (mkAPIFrame EmptyString)) = Raise TypeError.
Proof. reflexivity. Qed.

(** ** Bytes and their codes *)

Lemma code_range (a : ascii) : 0 <= code a < 256.
Proof.
  unfold code. pose proof (N_ascii_bounded a). lia.
Qed.

Lemma code_of_code (v : Z) :
  0 <= v < 256 -> code (ascii_of_N (Z.to_N v)) = v.
Proof.
  intros Hv. unfold code. rewrite N_ascii_embedding by lia. lia.
Qed.

Lemma ascii_of_code (a : ascii) : ascii_of_N (Z.to_N (code a)) = a.
Proof.
  unfold code. rewrite N2Z.id. apply ascii_N_embedding.
Qed.

Lemma byte_sum_nonneg (s : string) : 0 <= byte_sum s.
Proof.
  induction s as [|a s IH]; simpl; [lia|].
  pose proof (code_range a). unfold code in *. lia.
Qed.

Lemma land_low_byte (x : Z) : Z.land x 0xFF = x mod 256.
Proof.
  change 0xFF with (Z.ones 8). rewrite Z.land_ones by lia. reflexivity.
Qed.

(** ** The summing loop *)

Lemma for_each_sum (s : string) (total : Z) (self : APIFrame) :
  for_each (iter s)
           (fun byte total => o <- call (ord byte) ;; ret (total + o)) total self
  = (Ok (total + byte_sum s), self).
Proof.
  revert total. induction s as [|a s IH]; intros total; simpl.
  - unfold ret. f_equal. f_equal. lia.
  - unfold bind at 1. simpl. rewrite IH. f_equal. f_equal. lia.
Qed.

Lemma add_all_bytes_run (total : Z) (self : APIFrame) :
  add_all_bytes total self = (Ok (total + byte_sum (data self)), self).
Proof.
  unfold add_all_bytes, bind, self_data. apply for_each_sum.
Qed.

Lemma checksum_run (self : APIFrame) :
  checksum self
  = (Ok (char (ascii_of_N (Z.to_N (0xFF - byte_sum (data self) mod 256)))), self).
Proof.
  unfold checksum, bind. cbv zeta. rewrite add_all_bytes_run, Z.add_0_l.
  rewrite land_low_byte. unfold call, chr.
  pose proof (Z.mod_pos_bound (byte_sum (data self)) 256 ltac:(lia)) as Hb.
  destruct (Z.leb_spec 0 (0xFF - byte_sum (data self) mod 256));
    destruct (Z.ltb_spec (0xFF - byte_sum (data self) mod 256) 256);
    try lia.
  reflexivity.
Qed.

Lemma verify_run (c : ascii) (self : APIFrame) :
  verify (char c) self
  = (Ok ((byte_sum (data self) + code c) mod 256 =? 0xFF)%Z, self).
Proof.
  unfold verify, bind. cbv zeta. rewrite add_all_bytes_run, Z.add_0_l.
  unfold call, ord, char, ret. rewrite land_low_byte. reflexivity.
Qed.

Lemma checksum_byte_unique (s c : Z) :
  0 <= c < 256 -> ((s + c) mod 256 = 255 <-> c = 255 - s mod 256).
Proof.
  intros Hc. split; intros H.
  - pose proof (Z.mod_pos_bound s 256 ltac:(lia)) as Hs.
    rewrite <- Zplus_mod_idemp_l in H.
    destruct (Z_lt_le_dec (s mod 256 + c) 256) as [Hlt|Hge].
    + rewrite Z.mod_small in H by lia. lia.
    + replace (s mod 256 + c) with (s mod 256 + c - 256 + 1 * 256) in H by lia.
      rewrite Z_mod_plus_full in H. rewrite Z.mod_small in H by lia. lia.
  - subst c. rewrite <- Zplus_mod_idemp_l.
    replace (s mod 256 + (255 - s mod 256)) with 255 by lia. reflexivity.
Qed.

(** ** The checksum and its verification *)

(** C2: for every byte string [P], [APIFrame.checksum] returns (it
    raises nothing) a single byte, whose code is [0xFF] minus the low
    byte of the sum of the bytes of [P], that is [0xFF - sum(P) mod 256]. *)
Theorem checksum_ff_minus_low_byte (P : string) :
  exists b : ascii,
    checksum (mkAPIFrame P) = (Ok (char b), mkAPIFrame P) /\
    code b = 0xFF - Z.land (byte_sum P) 0xFF /\
    code b = 0xFF - byte_sum P mod 256.
Proof.
  pose proof (Z.mod_pos_bound (byte_sum P) 256 ltac:(lia)) as Hb.
  exists (ascii_of_N (Z.to_N (0xFF - byte_sum P mod 256))).
  split; [apply checksum_run|].
  rewrite land_low_byte, code_of_code by lia. split; reflexivity.
Qed.

(** C3: for every byte string [P] and every checksum byte [c],
    [APIFrame.verify] returns a boolean, and it is true if and only if
    [(sum(P) + c) & 0xFF == 0xFF]. *)
Theorem verify_iff_low_byte_ff (P : string) (c : ascii) :
  exists b : bool,
    verify (char c) (mkAPIFrame P) = (Ok b, mkAPIFrame P) /\
    (b = true <-> Z.land (byte_sum P + code c) 0xFF = 0xFF).
Proof.
  eexists. split; [apply verify_run|].
  rewrite land_low_byte. simpl data. apply Z.eqb_eq.
Qed.

(** C1: for every byte string [P], computing the checksum of the frame
    and then verifying the frame against it returns true. *)
Theorem verify_own_checksum (P : string) :
  (c <- checksum ;; verify c) (mkAPIFrame P) = (Ok true, mkAPIFrame P).
Proof.
  unfold bind at 1. rewrite checksum_run, verify_run. simpl data.
  pose proof (Z.mod_pos_bound (byte_sum P) 256 ltac:(lia)) as Hb.
  rewrite code_of_code by lia.
  f_equal. f_equal. apply Z.eqb_eq.
  apply checksum_byte_unique; lia.
Qed.

(** C9: for every byte string [P] and every byte [c], [verify] returns
    true on [c] if and only if [c] is the byte [checksum] returns: the
    computed checksum is the only byte that verifies. *)
Theorem verify_iff_checksum (P : string) (c : ascii) :
  fst (verify (char c) (mkAPIFrame P)) = Ok true
  <-> fst (checksum (mkAPIFrame P)) = Ok (char c).
Proof.
  rewrite verify_run, checksum_run. simpl.
  pose proof (Z.mod_pos_bound (byte_sum P) 256 ltac:(lia)) as Hb.
  pose proof (code_range c) as Hc.
  split; intros H.
  - assert (Hv : (byte_sum P + code c) mod 256 = 255).
    { apply Z.eqb_eq. congruence. }
    apply checksum_byte_unique in Hv; [|lia].
    rewrite <- Hv, ascii_of_code. reflexivity.
  - assert (Hv : code c = 255 - byte_sum P mod 256).
    { assert (Hb' : ascii_of_N (Z.to_N (255 - byte_sum P mod 256)) = c)
        by (unfold char in H; congruence).
      rewrite <- Hb'. apply code_of_code. lia. }
    apply (checksum_byte_unique (byte_sum P)) in Hv; [|lia].
    f_equal. apply Z.eqb_eq. exact Hv.
Qed.

(** C10: neither [checksum] nor [verify] modifies the frame: after
    either call, whatever the argument of [verify] and whether or not
    the call raises, the object and its [data] are as before. *)
Theorem methods_leave_frame (self : APIFrame) (chksum : string) :
  snd (checksum self) = self /\
  snd (verify chksum self) = self /\
  data (snd (checksum self)) = data self /\
  data (snd (verify chksum self)) = data self.
Proof.
  assert (Hc : snd (checksum self) = self).
  { rewrite checksum_run. reflexivity. }
  assert (Hv : snd (verify chksum self) = self).
  { unfold verify, bind. cbv zeta. rewrite add_all_bytes_run.
    unfold call. destruct (ord chksum); reflexivity. }
  rewrite Hc, Hv. repeat split; reflexivity.
Qed.

(** ** The tables of [ZigBee] *)

Section TableLemmas.

Context {V : Type}.

(** What holds of every item of a dict literal holds of every entry of
    the dict. *)
Lemma map_Forall_of_items (Q : string -> V -> Prop)
      (items : list (string * V)) :
  Forall (fun kv => Q (fst kv) (snd kv)) items ->
  map_Forall Q (list_to_map items : gmap string V).
Proof.
  induction 1 as [|[k v] items Hkv _ IH]; simpl.
  - apply map_Forall_empty.
  - apply map_Forall_insert_2; assumption.
Qed.

End TableLemmas.

Lemma rest_only_last_intro (lens : list (option Z)) :
  (forall i : nat, lens !! i = Some None -> S i = length lens) ->
  ZigBee.rest_only_last lens.
Proof.
  intros H. split; [exact H|].
  intros i j Hi Hj. apply H in Hi. apply H in Hj. lia.
Qed.

Ltac rest_only_last_by_cases :=
  cbv [List.map ZigBee.len ZigBee.rlen ZigBee.structure ZigBee.cf ZigBee.rf
       fst snd];
  apply rest_only_last_intro;
  let i := fresh "i" in
  let H := fresh "H" in
  intros i H;
  repeat match type of H with
         | (_ :: _) !! _ = _ =>
             destruct i as [|i]; simpl in H;
             [first [discriminate H | reflexivity]|]
         end;
  discriminate H.

Example api_commands_at :
  ZigBee.api_commands !! "at"
  = Some [ ZigBee.cf "id"        (Some 1) (Some (bytes [0x08]%N));
           ZigBee.cf "frame_id"  (Some 1) (Some (bytes [0x01]%N));
           ZigBee.cf "command"   (Some 2) None;
           ZigBee.cf "parameter" None     None ]
  /\ size ZigBee.api_commands = 5%nat.
Proof. split; vm_compute; reflexivity. Qed.

Example api_responses_status :
  ZigBee.api_responses !! bytes [0x8a]%N
  = Some (ZigBee.mkResponse "status" [ZigBee.rf "status" (Some 1)] None)
  /\ size ZigBee.api_responses = 8%nat.
Proof. split; vm_compute; reflexivity. Qed.

Ltac each_item :=
  repeat match goal with
         | |- Forall _ (_ :: _) => constructor
         | |- Forall _ [] => constructor
         end.

(** C7: in every entry of [api_commands], the first field is the fixed
    message-id field: it is named ['id'], has length 1, and has a default
    of one byte (not [None]), so that no value has to be supplied for it. *)
Theorem api_commands_id_field_first :
  map_Forall
    (fun (_ : string) (fields : list ZigBee.CommandField) =>
       exists f rest, fields = f :: rest /\ ZigBee.is_id_field f)
    ZigBee.api_commands.
Proof.
  apply map_Forall_of_items. unfold ZigBee.api_commands_items.
  each_item;
    (do 2 eexists; split; [reflexivity|]);
    (split; [reflexivity|split; [reflexivity|eexists; reflexivity]]).
Qed.

(** C8: in every entry of [api_commands] and in the structure of every
    entry of [api_responses], a field of length [None] (take what is
    left) occurs only as the last field, and at most once. *)
Theorem rest_field_only_last :
  map_Forall
    (fun (_ : string) (fields : list ZigBee.CommandField) =>
       ZigBee.rest_only_last (List.map ZigBee.len fields))
    ZigBee.api_commands
  /\
  map_Forall
    (fun (_ : string) (r : ZigBee.Response) =>
       ZigBee.rest_only_last (List.map ZigBee.rlen (ZigBee.structure r)))
    ZigBee.api_responses.
Proof.
  split; apply map_Forall_of_items.
  - unfold ZigBee.api_commands_items.
    each_item; rest_only_last_by_cases.
  - unfold ZigBee.api_responses_items.
    each_item; rest_only_last_by_cases.
Qed.

(** ** The frame envelope *)

Lemma xor_byte_involutive (b k : ascii) :
  FrameCodec.xor_byte (FrameCodec.xor_byte b k) k = b.
Proof.
  destruct b, k. unfold FrameCodec.xor_byte.
  f_equal; rewrite xorb_assoc, xorb_nilpotent; apply xorb_false_r.
Qed.

Section CodecLemmas.

Import FrameCodec.
Context (W : Wire).

Lemma unreserved_not_marker (b : ascii) :
  reserved W b = false -> Ascii.eqb b (escape_marker W) = false.
Proof.
  unfold reserved. intros H.
  destruct (Ascii.eqb b (escape_marker W)); [|reflexivity].
  rewrite orb_true_r in H. simpl in H. discriminate H.
Qed.

Lemma escape_app (s t : string) :
  escape W (s ++ t) = escape W s ++ escape W t.
Proof.
  induction s as [|b s IH]; simpl; [reflexivity|].
  rewrite IH. destruct (reserved W b); reflexivity.
Qed.

Lemma on_wire_app (escaping : bool) (s t : string) :
  on_wire W escaping (s ++ t) = on_wire W escaping s ++ on_wire W escaping t.
Proof.
  destruct escaping; simpl; [apply escape_app|reflexivity].
Qed.

(** A byte put on the wire is read back as one logical byte. *)
Lemma read_byte_on_wire (escaping : bool) (b : ascii) (s t : string) :
  read_byte W escaping (on_wire W escaping (String b s) ++ t)
  = Some (b, on_wire W escaping s ++ t).
Proof.
  destruct escaping; simpl; [|reflexivity].
  destruct (reserved W b) eqn:Hr; simpl.
  - rewrite Ascii.eqb_refl, xor_byte_involutive. reflexivity.
  - rewrite (unreserved_not_marker _ Hr). reflexivity.
Qed.

Lemma read_bytes_on_wire (escaping : bool) (s t : string) :
  read_bytes W escaping (String.length s) (on_wire W escaping s ++ t)
  = Some (s, t).
Proof.
  induction s as [|b s IH].
  - destruct escaping; reflexivity.
  - cbn [String.length read_bytes].
    rewrite read_byte_on_wire, IH. reflexivity.
Qed.

Lemma after_delimiter_head (s : string) :
  after_delimiter W (String (delimiter W) s) = Some s.
Proof.
  simpl. rewrite Ascii.eqb_refl. reflexivity.
Qed.

End CodecLemmas.

(** The two bytes of the length field hold any count below 65536. *)
Lemma length_field_decodes (n : Z) :
  0 <= n < 65536 ->
  exists hi lo : ascii,
    FrameCodec.length_field n = String hi (String lo EmptyString) /\
    code hi * 256 + code lo = n.
Proof.
  intros Hn. unfold FrameCodec.length_field. simpl bytes.
  do 2 eexists. split; [reflexivity|].
  rewrite !land_low_byte, Z.shiftr_div_pow2 by lia.
  change (2 ^ 8) with 256.
  assert (Hq : 0 <= n / 256 < 256).
  { split; [apply Z.div_pos; lia|apply Z.div_lt_upper_bound; lia]. }
  pose proof (Z.mod_pos_bound n 256 ltac:(lia)) as Hr.
  rewrite (Z.mod_small (n / 256)) by lia.
  rewrite !code_of_code by lia.
  pose proof (Z.div_mod n 256 ltac:(lia)). lia.
Qed.

Lemma append_empty_r (s : string) : s ++ EmptyString = s.
Proof.
  induction s as [|a s IH]; [reflexivity|].
  change (String a (s ++ EmptyString) = String a s). rewrite IH. reflexivity.
Qed.

(** The byte [checksum] returns verifies. *)
Lemma checksum_then_verify (P : string) :
  exists c : ascii,
    fst (checksum (mkAPIFrame P)) = Ok (char c) /\
    fst (verify (char c) (mkAPIFrame P)) = Ok true.
Proof.
  eexists. rewrite checksum_run, verify_run. split; [reflexivity|].
  cbn [fst data].
  pose proof (Z.mod_pos_bound (byte_sum P) 256 ltac:(lia)) as Hb.
  rewrite code_of_code by lia.
  f_equal. apply Z.eqb_eq. apply checksum_byte_unique; lia.
Qed.

(** A payload whose length fits the length field is wrapped into a
    frame that unwraps to it. *)
Lemma wrap_then_unwrap (W : FrameCodec.Wire) (escaping : bool) (P : string) :
  Z.of_nat (String.length P) < 65536 ->
  exists frame : string,
    FrameCodec.wrap W escaping P = Ok frame /\
    FrameCodec.unwrap W escaping frame = Ok (FrameCodec.Payload P).
Proof.
  intros Hlen.
  destruct (checksum_then_verify P) as (c & Hc & Hv).
  destruct (length_field_decodes (Z.of_nat (String.length P)) ltac:(lia))
    as (hi & lo & Hfield & Hdec).
  unfold FrameCodec.wrap. rewrite Hc.
  eexists. split; [reflexivity|].
  unfold FrameCodec.unwrap. rewrite after_delimiter_head.
  unfold FrameCodec.region. rewrite Hfield.
  change (String hi (String lo EmptyString) ++ P ++ char c)
    with (String hi (String lo (P ++ char c))).
  rewrite <- (append_empty_r
                (FrameCodec.on_wire W escaping (String hi (String lo (P ++ char c))))).
  rewrite read_byte_on_wire, read_byte_on_wire.
  cbv zeta. rewrite Hdec, Nat2Z.id.
  rewrite append_empty_r, on_wire_app, read_bytes_on_wire.
  rewrite <- (append_empty_r (FrameCodec.on_wire W escaping (char c))).
  unfold char at 1. rewrite read_byte_on_wire.
  rewrite Hv. reflexivity.
Qed.

(** C4, amended: for every payload [P] of at most 65535 bytes (the
    counts the 2-byte length field can hold), unwrapping the frame
    produced by wrapping [P] yields [P] back, with escaping mode enabled
    and with it disabled, whatever the fixed bytes of the wire format. *)
Theorem unwrap_wrap_roundtrip (W : FrameCodec.Wire) (escaping : bool)
        (P : string) :
  Z.of_nat (String.length P) < 65536 ->
  FrameCodec.unwrap_wrap W escaping P = Ok (FrameCodec.Payload P).
Proof.
  intros Hlen.
  destruct (wrap_then_unwrap W escaping P Hlen) as (frame & Hw & Hu).
  unfold FrameCodec.unwrap_wrap. rewrite Hw. exact Hu.
Qed.

(** The round trip on a payload made of reserved bytes, in escaping
    mode. *)
Lemma unwrap_wrap_roundtrip_witness :
  Z.of_nat (String.length (bytes [0x7E; 0x7D; 0x11; 0x13; 0x41]%N)) < 65536 /\
  FrameCodec.unwrap_wrap FrameCodec.xbee_wire true
    (bytes [0x7E; 0x7D; 0x11; 0x13; 0x41]%N)
  = Ok (FrameCodec.Payload (bytes [0x7E; 0x7D; 0x11; 0x13; 0x41]%N)).
Proof.
  split; [reflexivity|].
  apply (unwrap_wrap_roundtrip FrameCodec.xbee_wire true
           (bytes [0x7E; 0x7D; 0x11; 0x13; 0x41]%N)).
  reflexivity.
Defined.

(** C4 as stated fails: a payload of 65536 bytes does not come back,
    with escaping disabled or enabled.  Its length field reads zero, and
    the first payload byte is then taken for the checksum. *)
Lemma unwrap_wrap_long_payload :
  FrameCodec.unwrap_wrap FrameCodec.xbee_wire false (FrameCodec.zeros 65536)
    <> Ok (FrameCodec.Payload (FrameCodec.zeros 65536))
  /\
  FrameCodec.unwrap_wrap FrameCodec.xbee_wire true (FrameCodec.zeros 65536)
    <> Ok (FrameCodec.Payload (FrameCodec.zeros 65536)).
Proof.
  assert (Hoff : FrameCodec.unwrap_wrap FrameCodec.xbee_wire false
                   (FrameCodec.zeros 65536) = Ok FrameCodec.ChecksumError)
    by (vm_compute; reflexivity).
  assert (Hon : FrameCodec.unwrap_wrap FrameCodec.xbee_wire true
                  (FrameCodec.zeros 65536) = Ok FrameCodec.ChecksumError)
    by (vm_compute; reflexivity).
  rewrite Hoff, Hon. split; discriminate.
Qed.

Example wrap_escapes_reserved_bytes :
  FrameCodec.wrap FrameCodec.xbee_wire true (bytes [0x7E; 0x41]%N)
  = Ok (bytes [0x7E; 0x00; 0x02; 0x7D; 0x5E; 0x41; 0x40]%N).
Proof. reflexivity. Qed.

Example unwrap_truncated_frame :
  FrameCodec.unwrap FrameCodec.xbee_wire true
    (bytes [0x7E; 0x00; 0x02; 0x7D; 0x5E; 0x41]%N)
  = Ok FrameCodec.NeedMoreData.
Proof. reflexivity. Qed.

Example unwrap_corrupted_checksum :
  FrameCodec.unwrap FrameCodec.xbee_wire true
    (bytes [0x7E; 0x00; 0x02; 0x7D; 0x5E; 0x41; 0x41]%N)
  = Ok FrameCodec.ChecksumError.
Proof. reflexivity. Qed.

(** C6: the checksum of the empty payload is [0xFF]: [checksum] on
    empty data returns the byte [0xFF], and the frame wrapped around a
    zero-length payload carries, after the delimiter, a zero length and
    the checksum byte [0xFF]; with the XBee wire bytes the frame is
    [7E 00 00 FF] in both modes. *)
Theorem empty_payload_checksum_ff :
  checksum (mkAPIFrame EmptyString)
    = (Ok (bytes [0xFF]%N), mkAPIFrame EmptyString)
  /\
  (forall (W : FrameCodec.Wire) (escaping : bool),
      FrameCodec.wrap W escaping EmptyString
      = Ok (String (FrameCodec.delimiter W)
              (FrameCodec.on_wire W escaping (bytes [0x00; 0x00; 0xFF]%N))))
  /\
  (forall escaping : bool,
      FrameCodec.wrap FrameCodec.xbee_wire escaping EmptyString
      = Ok (bytes [0x7E; 0x00; 0x00; 0xFF]%N)).
Proof.
  split; [reflexivity|]. split.
  - intros W escaping. reflexivity.
  - intros []; reflexivity.
Qed.

(** ** The dispatch router *)

Section DispatchLemmas.

Import Dispatch.
Context {Message World : Type}.

Abbreviation Registration := (Registration Message).
Abbreviation Router := (Router Message World).
Abbreviation behaviour := (behaviour Message World).

(** The calls of a pass are the calls of the registrations of the
    snapshot whose predicate holds, in order; what the callbacks do to
    the registry meanwhile does not matter. *)
Lemma dispatch_snapshot_calls (B : behaviour) (snapshot : list Registration)
      (m : Message) (st : Router) :
  snd (dispatch_snapshot B snapshot m st)
  = List.map (call_of m) (List.filter (fun r => predicate r m) snapshot).
Proof.
  revert st. induction snapshot as [|r rest IH]; intros st; simpl.
  - reflexivity.
  - destruct (predicate r m); simpl.
    + specialize (IH (invoke B r m st)).
      destruct (dispatch_snapshot B rest m (invoke B r m st)) as [st' calls].
      simpl in *. rewrite IH. reflexivity.
    + apply IH.
Qed.

Lemma run_oneshot (B : behaviour) (m : Message) (source : list Message)
      (st : Router) :
  run B true (m :: source) st = dispatch_round B m st.
Proof.
  simpl. destruct (dispatch_round B m st). reflexivity.
Qed.

Lemma unique_names_inj (regs : list Registration) (r r' : Registration) :
  unique_names regs -> In r regs -> In r' regs -> name r = name r' -> r = r'.
Proof.
  unfold unique_names. induction regs as [|x regs IH]; simpl; [tauto|].
  intros Hnd Hr Hr' Hname. apply NoDup_cons in Hnd as [Hx Hnd].
  destruct Hr as [->|Hr], Hr' as [->|Hr'].
  - reflexivity.
  - exfalso. apply Hx. rewrite Hname.
    apply list_elem_of_In, in_map, Hr'.
  - exfalso. apply Hx. rewrite <- Hname.
    apply list_elem_of_In, in_map, Hr.
  - apply IH; assumption.
Qed.

Lemma unique_names_filter (f : Registration -> bool) (regs : list Registration) :
  unique_names regs -> unique_names (List.filter f regs).
Proof.
  unfold unique_names. induction regs as [|x regs IH]; simpl; [tauto|].
  intros Hnd. apply NoDup_cons in Hnd as [Hx Hnd].
  destruct (f x); simpl; [|apply IH, Hnd].
  apply NoDup_cons. split; [|apply IH, Hnd].
  intros Hin. apply Hx.
  apply list_elem_of_In, in_map_iff in Hin as (y & Hy & Hin).
  apply filter_In in Hin as [Hin _].
  rewrite <- Hy. apply list_elem_of_In, in_map, Hin.
Qed.

(** Registering keeps the names unique. *)
Lemma register_unique_names (r : Registration) (regs : list Registration) :
  unique_names regs -> unique_names (register r regs).
Proof.
  intros Hnd. unfold register, unique_names.
  rewrite map_app. apply NoDup_app. split; [|split].
  - apply unique_names_filter, Hnd.
  - intros n Hn Hn'. simpl in Hn'.
    apply list_elem_of_In in Hn'. destruct Hn' as [<-|[]].
    apply list_elem_of_In, in_map_iff in Hn as (y & Hy & Hin).
    apply filter_In in Hin as [_ Hne].
    rewrite Hy, String.eqb_refl in Hne. discriminate Hne.
  - simpl. apply NoDup_singleton.
Qed.

End DispatchLemmas.

Section DispatchRound.

Import Dispatch.
Context {Message World : Type}.

Lemma registered_unique_names (rs : list (Registration Message)) :
  unique_names (registered rs).
Proof.
  unfold registered.
  assert (H : forall acc : list (Registration Message),
             unique_names acc ->
             unique_names (fold_left (fun regs r => register r regs) rs acc)).
  { induction rs as [|r rs IH]; intros acc Hacc; simpl; [exact Hacc|].
    apply IH, register_unique_names, Hacc. }
  apply H. apply NoDup_nil_2.
Qed.

(** On a registry with unique names, the calls of a round are those of
    the matching registrations, each name at most once. *)
Lemma round_on_unique_names (B : behaviour Message World) (m : Message)
      (st : Router Message World) (r : Registration Message) :
  unique_names (registry st) ->
  In r (registry st) ->
  (predicate r m = true <-> In (call_of m r) (snd (dispatch_round B m st))) /\
  (forall (i j : nat) (c c' : nat) (m' m'' : Message),
      snd (dispatch_round B m st) !! i = Some (c, name r, m') ->
      snd (dispatch_round B m st) !! j = Some (c', name r, m'') ->
      i = j).
Proof.
  intros Hnd Hr. unfold dispatch_round.
  rewrite dispatch_snapshot_calls. split.
  - split.
    + intros Hp. apply in_map. apply filter_In. split; assumption.
    + intros Hin. apply in_map_iff in Hin as (r' & Heq & Hin).
      apply filter_In in Hin as [Hin Hp].
      assert (r' = r) as <-; [|exact Hp].
      apply (unique_names_inj _ _ _ Hnd Hin Hr).
      unfold call_of in Heq. congruence.
  - intros i j c c' m' m'' Hi Hj.
    pose proof (unique_names_filter (fun r => predicate r m) _ Hnd) as Hnd'.
    unfold unique_names in Hnd'.
    apply (NoDup_lookup _ i j (name r) Hnd').
    + apply (f_equal (fmap (fun x : invocation Message => snd (fst x)))) in Hi.
      rewrite <- list_lookup_fmap in Hi.
      change (fmap ?f (List.map ?g ?l)) with (List.map f (List.map g l)) in Hi.
      rewrite List.map_map in Hi. exact Hi.
    + apply (f_equal (fmap (fun x : invocation Message => snd (fst x)))) in Hj.
      rewrite <- list_lookup_fmap in Hj.
      change (fmap ?f (List.map ?g ?l)) with (List.map f (List.map g l)) in Hj.
      rewrite List.map_map in Hj. exact Hj.
Qed.

End DispatchRound.

Section ObservedRound.

Import Dispatch.
Context {Message World : Type}.

(** A callback that is invoked notes exactly its own call. *)
Lemma invoke_observed_seen (B : behaviour Message World)
      (r : Registration Message) (m : Message)
      (st : Router Message (list (invocation Message) * World)) :
  fst (world (invoke (observed B) r m st))
  = (fst (world st) ++ [call_of m r])%list.
Proof.
  unfold invoke, observed.
  destruct (B (callback r) (name r) m (snd (world st))) as [w' requests].
  reflexivity.
Qed.

(** What the callbacks have noted after a pass: what was noted before,
    then the calls of the registrations of the snapshot whose predicate
    holds, in order. *)
Lemma observed_snapshot_seen (B : behaviour Message World)
      (snapshot : list (Registration Message)) (m : Message)
      (st : Router Message (list (invocation Message) * World)) :
  fst (world (fst (dispatch_snapshot (observed B) snapshot m st)))
  = (fst (world st)
     ++ List.map (call_of m) (List.filter (fun r => predicate r m) snapshot))%list.
Proof.
  revert st. induction snapshot as [|r rest IH]; intros st; simpl.
  - rewrite app_nil_r. reflexivity.
  - destruct (predicate r m); simpl; [|apply IH].
    specialize (IH (invoke (observed B) r m st)).
    destruct (dispatch_snapshot (observed B) rest m (invoke (observed B) r m st))
      as [st' calls].
    simpl in *. rewrite IH, invoke_observed_seen, <- app_assoc. reflexivity.
Qed.

Lemma seen_in_round_matching (B : behaviour Message World) (m : Message)
      (regs : list (Registration Message)) (w : World) :
  seen_in_round B m regs w
  = List.map (call_of m) (List.filter (fun r => predicate r m) regs).
Proof.
  unfold seen_in_round, dispatch_round. rewrite observed_snapshot_seen.
  reflexivity.
Qed.

(** The router's own record of a round under observation is what the
    callbacks noted. *)
Lemma seen_in_round_calls (B : behaviour Message World) (m : Message)
      (regs : list (Registration Message)) (w : World) :
  seen_in_round B m regs w
  = snd (dispatch_round (observed B) m (mkRouter regs ([], w))).
Proof.
  rewrite seen_in_round_matching. unfold dispatch_round.
  rewrite dispatch_snapshot_calls. reflexivity.
Qed.

End ObservedRound.

(** C5: in one dispatch round over one decoded message, whatever the
    registrations made before it and whatever else the callbacks do, a
    registered callback runs, and is given the registration name and
    the message, if and only if its predicate returns true on that
    message, and it runs once: what the callbacks themselves note when
    they run is exactly the calls of the matching registrations.  In
    particular, after registering the [call] methods of three
    [CallbackCheck] objects with predicates true, false, true, a oneshot
    run leaves [called] true on the first and the third object and
    false on the second. *)
Theorem dispatch_round_calls_matching {Message World : Type}
        (B : Dispatch.behaviour Message World) (m : Message)
        (rs : list (Dispatch.Registration Message)) (w : World) :
  (forall r : Dispatch.Registration Message,
      In r (Dispatch.registered rs) ->
      (Dispatch.predicate r m = true <->
       In (Dispatch.callback r, Dispatch.name r, m)
          (Dispatch.seen_in_round B m (Dispatch.registered rs) w)) /\
      (forall (i j : nat) (c c' : nat) (m' m'' : Message),
          Dispatch.seen_in_round B m (Dispatch.registered rs) w !! i
          = Some (c, Dispatch.name r, m') ->
          Dispatch.seen_in_round B m (Dispatch.registered rs) w !! j
          = Some (c', Dispatch.name r, m'') ->
          i = j))
  /\
  Dispatch.seen_in_round B m (Dispatch.registered rs) w
  = List.map (Dispatch.call_of m)
      (List.filter (fun r => Dispatch.predicate r m) (Dispatch.registered rs))
  /\
  (forall (c1 c2 c3 : nat),
      Dispatch.seen_in_round B m
        (Dispatch.registered
           [Dispatch.mkRegistration "test1" c1 (fun _ => true);
            Dispatch.mkRegistration "test2" c2 (fun _ => false);
            Dispatch.mkRegistration "test3" c3 (fun _ => true)])
        w
      = [(c1, "test1", m); (c3, "test3", m)])
  /\
  (forall source : list Message,
      Dispatch.world
        (fst (Dispatch.run TestDispatch.bound_call true (m :: source)
                (Dispatch.mkRouter
                   (Dispatch.registered
                      [Dispatch.mkRegistration "test1" 1%nat (fun _ => true);
                       Dispatch.mkRegistration "test2" 2%nat (fun _ => false);
                       Dispatch.mkRegistration "test3" 3%nat (fun _ => true)])
                   (list_to_map
                      [(1%nat, TestDispatch.init);
                       (2%nat, TestDispatch.init);
                       (3%nat, TestDispatch.init)]))))
      = list_to_map
          [(1%nat, TestDispatch.mkCallbackCheck true);
           (2%nat, TestDispatch.mkCallbackCheck false);
           (3%nat, TestDispatch.mkCallbackCheck true)]).
Proof.
  split; [|split; [|split]].
  - intros r Hr. rewrite seen_in_round_calls.
    apply (round_on_unique_names (Dispatch.observed B) m
             (Dispatch.mkRouter (Dispatch.registered rs) ([], w)) r);
      [|exact Hr].
    apply registered_unique_names.
  - apply seen_in_round_matching.
  - intros c1 c2 c3. rewrite seen_in_round_matching. reflexivity.
  - intros source. vm_compute. reflexivity.
Qed.

Example registering_again_replaces :
  List.map Dispatch.name
    (Dispatch.registered
       [Dispatch.mkRegistration "a" 1%nat negb;
        Dispatch.mkRegistration "b" 2%nat negb;
        Dispatch.mkRegistration "a" 3%nat negb])
  = ["b"; "a"]
  /\
  List.map Dispatch.callback
    (Dispatch.registered
       [Dispatch.mkRegistration "a" 1%nat negb;
        Dispatch.mkRegistration "b" 2%nat negb;
        Dispatch.mkRegistration "a" 3%nat negb])
  = [2%nat; 3%nat].
Proof. split; reflexivity. Qed.

(** The round on two registrations, of which the first matches the
    message [true] and the second does not. *)
Lemma dispatch_round_calls_matching_witness :
  In (Dispatch.mkRegistration "test1" 1%nat (fun b : bool => b))
     (Dispatch.registered
        [Dispatch.mkRegistration "test1" 1%nat (fun b : bool => b);
         Dispatch.mkRegistration "test2" 2%nat negb])
  /\
  ((fun b : bool => b) true = true <->
   In (1%nat, "test1", true)
      (Dispatch.seen_in_round (fun _ _ _ (w : unit) => (w, [])) true
         (Dispatch.registered
            [Dispatch.mkRegistration "test1" 1%nat (fun b : bool => b);
             Dispatch.mkRegistration "test2" 2%nat negb])
         tt)).
Proof.
  split.
  - left. reflexivity.
  - apply (proj1 (dispatch_round_calls_matching
                    (fun _ _ _ (w : unit) => (w, [])) true
                    [Dispatch.mkRegistration "test1" 1%nat (fun b : bool => b);
                     Dispatch.mkRegistration "test2" 2%nat negb]
                    tt)
                 (Dispatch.mkRegistration "test1" 1%nat (fun b : bool => b))).
    left. reflexivity.
Defined.

(** A callback that unregisters ["b"] and registers ["c"] while the
    round runs: the round still calls ["b"] and does not call ["c"]; the
    registry changes for the next round. *)
Example round_runs_on_snapshot :
  Dispatch.dispatch_round
    (fun cb _ _ (w : unit) =>
       if Nat.eqb cb 1
       then (w, [Dispatch.Unregister "b";
                 Dispatch.Register
                   (Dispatch.mkRegistration "c" 3%nat (fun _ : unit => true))])
       else (w, []))
    tt
    (Dispatch.mkRouter
       (Dispatch.registered
          [Dispatch.mkRegistration "a" 1%nat (fun _ : unit => true);
           Dispatch.mkRegistration "b" 2%nat (fun _ : unit => true)])
       tt)
  = (Dispatch.mkRouter
       [Dispatch.mkRegistration "a" 1%nat (fun _ : unit => true);
        Dispatch.mkRegistration "c" 3%nat (fun _ : unit => true)]
       tt,
     [(1%nat, "a", tt); (2%nat, "b", tt)]).
Proof. reflexivity. Qed.

(** * Further properties of [APIFrame] *)

Lemma byte_sum_app (s t : string) :
  byte_sum (s ++ t) = byte_sum s + byte_sum t.
Proof.
  induction s as [|a s IH]; [reflexivity|].
  change (byte_sum (String a (s ++ t)) = byte_sum (String a s) + byte_sum t).
  simpl. rewrite IH. lia.
Qed.

(** [verify] on any argument: the loop runs first, then [ord(chksum)]
    decides between an answer and an exception. *)
Lemma verify_run_any (chksum : string) (self : APIFrame) :
  verify chksum self
  = (match ord chksum with
     | Ok o => Ok ((byte_sum (data self) + o) mod 256 =? 0xFF)%Z
     | Raise e => Raise e
     end, self).
Proof.
  unfold verify, bind. cbv zeta. rewrite add_all_bytes_run, Z.add_0_l.
  unfold call. destruct (ord chksum) as [o|e]; [|reflexivity].
  unfold ret. rewrite land_low_byte. reflexivity.
Qed.

(** Two frames have the same checksum exactly when the sums of their
    bytes agree modulo 256. *)
Lemma checksum_eq_iff (P Q : string) :
  fst (checksum (mkAPIFrame P)) = fst (checksum (mkAPIFrame Q))
  <-> byte_sum P mod 256 = byte_sum Q mod 256.
Proof.
  rewrite !checksum_run. cbn [fst data].
  pose proof (Z.mod_pos_bound (byte_sum P) 256 ltac:(lia)) as HP.
  pose proof (Z.mod_pos_bound (byte_sum Q) 256 ltac:(lia)) as HQ.
  split; intros H.
  - assert (Hc : code (ascii_of_N (Z.to_N (0xFF - byte_sum P mod 256)))
                 = code (ascii_of_N (Z.to_N (0xFF - byte_sum Q mod 256))))
      by (unfold char in H; congruence).
    rewrite !code_of_code in Hc by lia. lia.
  - rewrite H. reflexivity.
Qed.

Lemma verify_eq_of_sum (P Q chksum : string) :
  byte_sum P mod 256 = byte_sum Q mod 256 ->
  fst (verify chksum (mkAPIFrame P)) = fst (verify chksum (mkAPIFrame Q)).
Proof.
  intros H. rewrite !verify_run_any. cbn [fst data].
  destruct (ord chksum) as [o|e]; [|reflexivity].
  rewrite <- (Zplus_mod_idemp_l (byte_sum P)), H, Zplus_mod_idemp_l.
  reflexivity.
Qed.

Lemma byte_sum_permutation (P Q : string) :
  Permutation (list_ascii_of_string P) (list_ascii_of_string Q) ->
  byte_sum P = byte_sum Q.
Proof.
  assert (Hsum : forall s, byte_sum s
                           = foldr Z.add 0 (code <$> list_ascii_of_string s)).
  { induction s as [|a s IH]; simpl; [reflexivity|]. rewrite IH. reflexivity. }
  intros H. rewrite !Hsum.
  induction H as [|a l l' _ IH|a b l|l l' l'' _ IH1 _ IH2].
  - reflexivity.
  - cbn in *. lia.
  - cbn. lia.
  - congruence.
Qed.

(** X1: [verify] raises exactly when its argument is not a string of
    one character, in which case the exception is the [TypeError] of
    [ord], whatever the data; it never raises [ValueError], and a
    one-character argument always gets a boolean answer. *)
Theorem verify_raises_iff_not_one_char (self : APIFrame) (chksum : string) :
  (fst (verify chksum self) = Raise TypeError
   <-> String.length chksum <> 1%nat) /\
  ((exists b : bool, fst (verify chksum self) = Ok b)
   <-> String.length chksum = 1%nat) /\
  fst (verify chksum self) <> Raise ValueError.
Proof.
  rewrite verify_run_any. cbn [fst].
  destruct chksum as [|a [|b rest]]; simpl; repeat split;
    try discriminate; try congruence; try lia; eauto.
  - intros [b H]. discriminate H.
  - intros [b' H]. discriminate H.
Qed.

(** X2: the checksum does not see the order of the bytes: two frames
    whose data are permutations of each other get the same checksum,
    and [verify] answers the same on both for every argument. *)
Theorem checksum_order_insensitive (P Q : string) :
  Permutation (list_ascii_of_string P) (list_ascii_of_string Q) ->
  fst (checksum (mkAPIFrame P)) = fst (checksum (mkAPIFrame Q)) /\
  forall chksum : string,
    fst (verify chksum (mkAPIFrame P)) = fst (verify chksum (mkAPIFrame Q)).
Proof.
  intros H. apply byte_sum_permutation in H. split.
  - apply checksum_eq_iff. rewrite H. reflexivity.
  - intros chksum. apply verify_eq_of_sum. rewrite H. reflexivity.
Qed.

Lemma checksum_order_insensitive_witness :
  Permutation (list_ascii_of_string "AT") (list_ascii_of_string "TA") /\
  fst (checksum (mkAPIFrame "AT")) = fst (checksum (mkAPIFrame "TA")).
Proof.
  split.
  - apply perm_swap.
  - apply (checksum_order_insensitive "AT" "TA"). apply perm_swap.
Defined.

Lemma code_inj (a b : ascii) : code a = code b -> a = b.
Proof.
  intros H. rewrite <- (ascii_of_code a), <- (ascii_of_code b), H. reflexivity.
Qed.

Lemma mod_256_cancel (s x y : Z) :
  0 <= x < 256 -> 0 <= y < 256 ->
  (s + x) mod 256 = (s + y) mod 256 -> x = y.
Proof.
  intros Hx Hy H.
  assert (Hd : (x - y) mod 256 = 0).
  { replace (x - y) with ((s + x) - (s + y)) by lia.
    rewrite Zminus_mod, H, Z.sub_diag. reflexivity. }
  apply Z.mod_divide in Hd; [|lia]. destruct Hd as [k Hk]. lia.
Qed.

(** X3: a change of one byte of the data is always detected: if the
    byte at some position is replaced by a different byte, the checksum
    changes, and a checksum byte that verified the frame before is
    rejected after. *)
Theorem one_changed_byte_detected (pre post : string) (a b c : ascii) :
  a <> b ->
  fst (checksum (mkAPIFrame (pre ++ String a post)))
    <> fst (checksum (mkAPIFrame (pre ++ String b post))) /\
  (fst (verify (char c) (mkAPIFrame (pre ++ String a post))) = Ok true ->
   fst (verify (char c) (mkAPIFrame (pre ++ String b post))) = Ok false).
Proof.
  intros Hab.
  assert (Hne : byte_sum (pre ++ String a post) mod 256
                <> byte_sum (pre ++ String b post) mod 256).
  { rewrite !byte_sum_app. simpl byte_sum. fold (code a) (code b).
    intros H. apply Hab, code_inj.
    apply (mod_256_cancel (byte_sum pre + byte_sum post));
      [apply code_range|apply code_range|].
    replace (byte_sum pre + byte_sum post + code a)
      with (byte_sum pre + (code a + byte_sum post)) by lia.
    replace (byte_sum pre + byte_sum post + code b)
      with (byte_sum pre + (code b + byte_sum post)) by lia.
    exact H. }
  split.
  - intros H. apply Hne, checksum_eq_iff, H.
  - rewrite !verify_run. cbn [fst data]. intros H.
    assert (Ha : (byte_sum (pre ++ String a post) + code c) mod 256 = 255)
      by (apply Z.eqb_eq; congruence).
    f_equal. apply Z.eqb_neq. intros Hb. apply Hne.
    rewrite <- Ha in Hb.
    rewrite (Z.add_comm _ (code c)), (Z.add_comm _ (code c)) in Hb.
    pose proof (Z.mod_pos_bound (byte_sum (pre ++ String a post)) 256 ltac:(lia)).
    pose proof (Z.mod_pos_bound (byte_sum (pre ++ String b post)) 256 ltac:(lia)).
    symmetry. apply (mod_256_cancel (code c)); [lia|lia|].
    rewrite !Zplus_mod_idemp_r. exact Hb.
Qed.

Lemma one_changed_byte_detected_witness :
  "010"%char <> "011"%char /\
  fst (checksum (mkAPIFrame ("AT" ++ String "010"%char "ND")))
    <> fst (checksum (mkAPIFrame ("AT" ++ String "011"%char "ND"))).
Proof.
  split.
  - discriminate.
  - apply (one_changed_byte_detected "AT" "ND" "010"%char "011"%char "000"%char).
    discriminate.
Defined.

(** X4: a checksum byte verifies a frame if and only if the checksum of
    the data followed by that byte is the zero byte; in particular the
    data followed by its own checksum always checksums to zero. *)
Theorem verify_iff_checksum_with_byte_zero (P : string) (c : ascii) :
  (fst (verify (char c) (mkAPIFrame P)) = Ok true
   <-> fst (checksum (mkAPIFrame (P ++ char c))) = Ok (bytes [0x00]%N)) /\
  (fst (checksum (mkAPIFrame P)) = Ok (char c) ->
   fst (checksum (mkAPIFrame (P ++ char c))) = Ok (bytes [0x00]%N)).
Proof.
  assert (Hiff : fst (verify (char c) (mkAPIFrame P)) = Ok true
                 <-> fst (checksum (mkAPIFrame (P ++ char c)))
                     = Ok (bytes [0x00]%N)).
  { rewrite verify_run, checksum_run. cbn [fst data].
    rewrite byte_sum_app. unfold char at 1. simpl byte_sum. fold (code c).
    rewrite Z.add_0_r.
    pose proof (Z.mod_pos_bound (byte_sum P + code c) 256 ltac:(lia)) as Hb.
    split; intros H.
    - assert (Hv : (byte_sum P + code c) mod 256 = 255)
        by (apply Z.eqb_eq; congruence).
      rewrite Hv. reflexivity.
    - assert (Hz : code (ascii_of_N (Z.to_N (0xFF - (byte_sum P + code c) mod 256)))
                   = code (ascii_of_N 0))
        by (unfold char, bytes in H; congruence).
      rewrite code_of_code in Hz by lia. change (code (ascii_of_N 0)) with 0 in Hz.
      f_equal. apply Z.eqb_eq. lia. }
  split; [exact Hiff|].
  intros Hc. apply Hiff.
  destruct (checksum_then_verify P) as (c' & Hc' & Hv).
  assert (c' = c) as <- by (unfold char in *; congruence).
  exact Hv.
Qed.

Lemma verify_iff_checksum_with_byte_zero_witness :
  fst (checksum (mkAPIFrame "AT")) = Ok (char "j"%char) /\
  fst (checksum (mkAPIFrame ("AT" ++ char "j"%char))) = Ok (bytes [0x00]%N).
Proof.
  split.
  - reflexivity.
  - apply (proj2 (verify_iff_checksum_with_byte_zero "AT" "j"%char)).
    reflexivity.
Defined.

(** X5: the checksum of a concatenation follows from the checksums of
    the parts: its code is the sum of the two codes plus one, modulo
    256. *)
Theorem checksum_of_concatenation (P Q : string) :
  exists p q r : ascii,
    fst (checksum (mkAPIFrame P)) = Ok (char p) /\
    fst (checksum (mkAPIFrame Q)) = Ok (char q) /\
    fst (checksum (mkAPIFrame (P ++ Q))) = Ok (char r) /\
    code r = (code p + code q + 1) mod 256.
Proof.
  do 3 eexists. rewrite !checksum_run. cbn [fst data].
  repeat (split; [reflexivity|]).
  pose proof (Z.mod_pos_bound (byte_sum P) 256 ltac:(lia)) as HP.
  pose proof (Z.mod_pos_bound (byte_sum Q) 256 ltac:(lia)) as HQ.
  pose proof (Z.mod_pos_bound (byte_sum (P ++ Q)) 256 ltac:(lia)) as HPQ.
  rewrite !code_of_code by lia.
  rewrite byte_sum_app in *.
  generalize dependent (byte_sum P). generalize dependent (byte_sum Q).
  intros sQ HQ sP HP HPQ. clear P Q.
  Z.to_euclidean_division_equations. lia.
Qed.

(** X6: a block of bytes whose sum is a multiple of 256 (zero bytes, for
    one) goes unnoticed: inserting it anywhere in the data changes
    neither the checksum nor any answer of [verify]. *)
Theorem inserted_block_unnoticed (pre ins post : string) :
  byte_sum ins mod 256 = 0 ->
  fst (checksum (mkAPIFrame (pre ++ ins ++ post)))
    = fst (checksum (mkAPIFrame (pre ++ post))) /\
  forall chksum : string,
    fst (verify chksum (mkAPIFrame (pre ++ ins ++ post)))
    = fst (verify chksum (mkAPIFrame (pre ++ post))).
Proof.
  intros Hins.
  assert (H : byte_sum (pre ++ ins ++ post) mod 256
              = byte_sum (pre ++ post) mod 256).
  { rewrite !byte_sum_app.
    replace (byte_sum pre + (byte_sum ins + byte_sum post))
      with (byte_sum ins + (byte_sum pre + byte_sum post)) by lia.
    rewrite <- Zplus_mod_idemp_l, Hins. reflexivity. }
  split.
  - apply checksum_eq_iff, H.
  - intros chksum. apply verify_eq_of_sum, H.
Qed.

Lemma inserted_block_unnoticed_witness :
  byte_sum (bytes [0x80; 0x00; 0x80]%N) mod 256 = 0 /\
  fst (checksum (mkAPIFrame ("AT" ++ bytes [0x80; 0x00; 0x80]%N ++ "ND")))
    = fst (checksum (mkAPIFrame ("AT" ++ "ND"))).
Proof.
  split.
  - reflexivity.
  - apply (inserted_block_unnoticed "AT" (bytes [0x80; 0x00; 0x80]%N) "ND").
    reflexivity.
Defined.

(** X7: two frames have the same checksum if and only if [verify]
    accepts the same checksum bytes on both. *)
Theorem same_checksum_iff_same_verdicts (P Q : string) :
  fst (checksum (mkAPIFrame P)) = fst (checksum (mkAPIFrame Q))
  <-> forall c : ascii,
        fst (verify (char c) (mkAPIFrame P))
        = fst (verify (char c) (mkAPIFrame Q)).
Proof.
  split.
  - intros H c. apply verify_eq_of_sum, checksum_eq_iff, H.
  - intros H. apply checksum_eq_iff.
    destruct (checksum_then_verify P) as (c & _ & Hv).
    pose proof Hv as Hv'. rewrite (H c) in Hv'.
    rewrite verify_run in Hv, Hv'. cbn [fst data] in Hv, Hv'.
    assert (HP : (byte_sum P + code c) mod 256 = 255)
      by (apply Z.eqb_eq; congruence).
    assert (HQ : (byte_sum Q + code c) mod 256 = 255)
      by (apply Z.eqb_eq; congruence).
    pose proof (code_range c) as Hc.
    apply checksum_byte_unique in HP; [|lia].
    apply checksum_byte_unique in HQ; [|lia]. lia.
Qed.

(** * Further properties of the tables of [ZigBee] *)

(** An entry found in a dict literal is one of its items. *)
Lemma lookup_items {V : Type} (items : list (string * V)) (k : string) (v : V) :
  (list_to_map items : gmap string V) !! k = Some v -> In (k, v) items.
Proof.
  intros H. apply list_elem_of_In. apply elem_of_list_to_map_2 in H. exact H.
Qed.

Ltac item_cases H :=
  simpl in H;
  repeat (destruct H as [H|H]; [injection H as <- <-|]);
  [..|destruct H].

(** X8: in every entry of [api_commands], a default, where there is
    one, has exactly the number of bytes the field's [len] asks for; a
    field of length [None] has no default. *)
Theorem defaults_have_field_length :
  map_Forall
    (fun (_ : string) (fields : list ZigBee.CommandField) =>
       Forall
         (fun f =>
            (forall d : string,
                ZigBee.default f = Some d ->
                ZigBee.len f = Some (Z.of_nat (String.length d))) /\
            (ZigBee.len f = None -> ZigBee.default f = None))
         fields)
    ZigBee.api_commands.
Proof.
  apply map_Forall_of_items. unfold ZigBee.api_commands_items.
  each_item; cbv beta; cbn [fst snd]; each_item;
    cbn; (split; [intros d H|intros H]);
    first [discriminate H | injection H as <-; reflexivity | reflexivity].
Qed.

(** X9: within every entry of [api_commands] and within the structure
    of every entry of [api_responses], no field name occurs twice. *)
Theorem field_names_unique :
  map_Forall
    (fun (_ : string) (fields : list ZigBee.CommandField) =>
       NoDup (List.map ZigBee.name fields))
    ZigBee.api_commands
  /\
  map_Forall
    (fun (_ : string) (r : ZigBee.Response) =>
       NoDup (List.map ZigBee.rname (ZigBee.structure r)))
    ZigBee.api_responses.
Proof.
  split; apply map_Forall_of_items.
  - unfold ZigBee.api_commands_items. each_item; cbn; compute_done.
  - unfold ZigBee.api_responses_items. each_item; cbn; compute_done.
Qed.

(** X10: the id byte (the default of the first field) tells the
    commands apart: two entries of [api_commands] with the same id byte
    are the same entry; and no entry of [api_responses] is keyed by the
    id byte of a command. *)
Theorem command_ids_distinct (k1 k2 : string)
        (fields1 fields2 : list ZigBee.CommandField) (id : string) :
  ZigBee.api_commands !! k1 = Some fields1 ->
  ZigBee.api_commands !! k2 = Some fields2 ->
  head fields1 ≫= ZigBee.default = Some id ->
  head fields2 ≫= ZigBee.default = Some id ->
  k1 = k2 /\ ZigBee.api_responses !! id = None.
Proof.
  intros H1 H2 Hid1 Hid2.
  apply lookup_items in H1. apply lookup_items in H2.
  unfold ZigBee.api_commands_items in H1, H2.
  item_cases H1; item_cases H2;
    cbn in Hid1, Hid2; injection Hid1 as <-;
    first [discriminate Hid2 | split; [reflexivity|vm_compute; reflexivity]].
Qed.

Lemma command_ids_distinct_witness :
  ZigBee.api_commands !! "tx" = Some (ZigBee.api_commands !!! "tx") /\
  head (ZigBee.api_commands !!! "tx") ≫= ZigBee.default
    = Some (bytes [0x10]%N) /\
  "tx" = "tx" /\
  ZigBee.api_responses !! bytes [0x10]%N = None.
Proof.
  split; [vm_compute; reflexivity|].
  split; [vm_compute; reflexivity|].
  apply (command_ids_distinct "tx" "tx"
           (ZigBee.api_commands !!! "tx") (ZigBee.api_commands !!! "tx")
           (bytes [0x10]%N));
    vm_compute; reflexivity.
Defined.

(** X11: where an entry of [api_responses] has the key
    ['parse_as_io_samples'], it names a field of the entry's own
    structure, and that field is the last one and has length [None]. *)
Theorem io_samples_field_is_rest_field :
  map_Forall
    (fun (_ : string) (r : ZigBee.Response) =>
       forall n : string,
         ZigBee.parse_as_io_samples r = Some n ->
         exists f : ZigBee.ResponseField,
           last (ZigBee.structure r) = Some f /\
           ZigBee.rname f = n /\ ZigBee.rlen f = None)
    ZigBee.api_responses.
Proof.
  apply map_Forall_of_items. unfold ZigBee.api_responses_items.
  each_item; cbn; intros n H;
    first [discriminate H | injection H as <-; eexists; repeat split].
Qed.

(** X12: every key of [api_responses] is a string of one byte, and the
    names of the responses tell them apart: two entries with the same
    ['name'] have the same key. *)
Theorem response_names_distinct (k1 k2 : string) (r1 r2 : ZigBee.Response) :
  ZigBee.api_responses !! k1 = Some r1 ->
  ZigBee.api_responses !! k2 = Some r2 ->
  String.length k1 = 1%nat /\
  (ZigBee.response_name r1 = ZigBee.response_name r2 -> k1 = k2).
Proof.
  intros H1 H2.
  apply lookup_items in H1. apply lookup_items in H2.
  unfold ZigBee.api_responses_items in H1, H2.
  item_cases H1; item_cases H2;
    (split; [reflexivity|]); cbn; intros Hn;
    first [reflexivity | discriminate Hn].
Qed.

Lemma response_names_distinct_witness :
  ZigBee.api_responses !! bytes [0x8a]%N
    = Some (ZigBee.mkResponse "status" [ZigBee.rf "status" (Some 1)] None) /\
  String.length (bytes [0x8a]%N) = 1%nat.
Proof.
  split; [vm_compute; reflexivity|].
  apply (response_names_distinct (bytes [0x8a]%N) (bytes [0x8a]%N)
           (ZigBee.mkResponse "status" [ZigBee.rf "status" (Some 1)] None)
           (ZigBee.mkResponse "status" [ZigBee.rf "status" (Some 1)] None));
    vm_compute; reflexivity.
Defined.
